(** * Dispatch layer of the CUDA fuser IR (torch/csrc/jit/codegen/cuda/dispatch.h)

    The header declares five classes of virtual functions, one function per
    IR node type: [OptOutDispatch], [OptInConstDispatch], [OptInDispatch],
    [OptOutMutator] and [OptInMutator].  A class is embedded as a record of
    method bodies taking [this] explicitly; a virtual call ties the knot
    through a step-indexed [vcall].  Exceptions are an [Err] outcome that
    keeps the state reached when the exception was thrown. *)

From Stdlib Require Import String List Arith Lia Bool.
From stdpp Require Import base list strings.
Import ListNotations.

Local Open Scope string_scope.
Local Open Scope list_scope.

(** ** Node types named by the header *)

(** [// Vals]: struct IterDomain; TensorDomain; TensorView; Float; Int. *)
Inductive ValType : Type :=
  | IterDomain | TensorDomain | TensorView | Float | Int.

(** [// Exprs]: struct Split; Merge; Reorder; UnaryOp; BinaryOp. *)
Inductive ExprType : Type :=
  | Split | Merge | Reorder | UnaryOp | BinaryOp.

(** A concrete node type: one of the ten structs above. *)
Inductive Kind : Type :=
  | KVal (v : ValType)
  | KExpr (e : ExprType).

#[export] Instance ValType_eq_dec : EqDecision ValType.
Proof. solve_decision. Defined.
#[export] Instance ExprType_eq_dec : EqDecision ExprType.
Proof. solve_decision. Defined.
#[export] Instance Kind_eq_dec : EqDecision Kind.
Proof. solve_decision. Defined.

Definition all_kinds : list Kind :=
  [ KVal IterDomain; KVal TensorDomain; KVal TensorView; KVal Float; KVal Int;
    KExpr Split; KExpr Merge; KExpr Reorder; KExpr UnaryOp; KExpr BinaryOp ].

(** The C++ identifier of a concrete node type. *)
Definition kind_name (k : Kind) : string :=
  match k with
  | KVal IterDomain => "IterDomain"
  | KVal TensorDomain => "TensorDomain"
  | KVal TensorView => "TensorView"
  | KVal Float => "Float"
  | KVal Int => "Int"
  | KExpr Split => "Split"
  | KExpr Merge => "Merge"
  | KExpr Reorder => "Reorder"
  | KExpr UnaryOp => "UnaryOp"
  | KExpr BinaryOp => "BinaryOp"
  end.

(** The parameter type of a virtual function of the header: one of the three
    abstract types [Statement], [Expr], [Val], or a concrete node type. *)
Inductive Level : Type :=
  | LStatement
  | LExpr
  | LVal
  | LConcrete (k : Kind).

#[export] Instance Level_eq_dec : EqDecision Level.
Proof. solve_decision. Defined.

(** ** Pointers, nodes and the fusion *)

(** A C++ pointer to a node: null, or the address of a node slot. *)
Inductive Ptr : Type :=
  | Null
  | At (a : nat).

#[export] Instance Ptr_eq_dec : EqDecision Ptr.
Proof. solve_decision. Defined.

(** Modelled from the spec: the node definitions (struct Statement, Val, Expr
    and the ten concrete structs) are only forward-declared in the header.
    The spec gives every node a discriminant, read in two hops: first the
    family ([Val] or [Expr]), then the concrete kind inside the family.  A
    discriminant the router does not enumerate carries its raw tag. *)
Inductive ValDisc : Type :=
  | VKnown (v : ValType)
  | VUnknown (tag : nat).

Inductive ExprDisc : Type :=
  | EKnown (e : ExprType)
  | EUnknown (tag : nat).

Inductive StmtDisc : Type :=
  | SVal (d : ValDisc)
  | SExpr (d : ExprDisc)
  | SUnknown (tag : nat).

#[export] Instance ValDisc_eq_dec : EqDecision ValDisc.
Proof. solve_decision. Defined.
#[export] Instance ExprDisc_eq_dec : EqDecision ExprDisc.
Proof. solve_decision. Defined.
#[export] Instance StmtDisc_eq_dec : EqDecision StmtDisc.
Proof. solve_decision. Defined.

(** The discriminant of a node of concrete kind [k]. *)
Definition disc_of (k : Kind) : StmtDisc :=
  match k with
  | KVal v => SVal (VKnown v)
  | KExpr e => SExpr (EKnown e)
  end.

(** Modelled from the spec: a node is its discriminant and the nodes it is
    composed of (its constituents), in the order the node declares them. *)
Record Node : Type := mkNode {
  disc : StmtDisc;
  constituents : list Ptr
}.

(** Modelled from the spec: struct Fusion is only forward-declared.  It owns
    the nodes (a store indexed by address; a new node takes the next free
    address) and lists its statements in their declared order. *)
Record Fusion : Type := mkFusion {
  nodes : list Node;
  statements : list Ptr
}.

Definition deref (f : Fusion) (p : Ptr) : option Node :=
  match p with
  | Null => None
  | At a => nodes f !! a
  end.

(** ** Outcomes and the state-and-exception monad *)

Inductive Error : Type :=
  | AssertFailed (msg : string)  (* c10::Error of TORCH_INTERNAL_ASSERT *)
  | UnknownNodeKind              (* the router saw an unknown discriminant *)
  | UndefinedBehaviour           (* null dereference, missing return *)
  | OutOfFuel.                   (* the step index of [vcall] ran out *)

(** One virtual call: which overload was entered, on which pointer. *)
Inductive Event : Type :=
  | Call (l : Level) (p : Ptr).

Section Semantics.

(** The state of the derived class (its data members). *)
Context {U : Type}.

Record State : Type := mkState {
  fusion : Fusion;
  user : U;
  trace : list Event   (* ghost: the virtual calls made so far *)
}.

Inductive Outcome (A : Type) : Type :=
  | Ok (a : A) (s : State)
  | Err (e : Error) (s : State).
Arguments Ok {A} a s.
Arguments Err {A} e s.

Definition M (A : Type) : Type := State -> Outcome A.

Definition ret {A} (a : A) : M A := fun s => Ok a s.

Definition bind {A B} (m : M A) (k : A -> M B) : M B :=
  fun s => match m s with
           | Ok a s' => k a s'
           | Err e s' => Err e s'
           end.

Definition throw {A} (e : Error) : M A := fun s => Err e s.

Definition final {A} (o : Outcome A) : State :=
  match o with Ok _ s => s | Err _ s => s end.

Definition log (ev : Event) (s : State) : State :=
  mkState (fusion s) (user s) (trace s ++ [ev]).

End Semantics.

Arguments State U : clear implicits.
Arguments Outcome U A : clear implicits.
Arguments M U A : clear implicits.
Arguments Ok {U A} a s.
Arguments Err {U A} e s.

Declare Scope disp_scope.
Delimit Scope disp_scope with disp.
Notation "x <- m ;; k" := (bind m (fun x => k))
  (at level 100, m at next level, right associativity) : disp_scope.
Notation "m ;;; k" := (bind m (fun _ => k))
  (at level 100, right associativity) : disp_scope.
Local Open Scope disp_scope.

(** ** Classes of virtual functions *)

Section Classes.

Context {U : Type}.

(** [this], as a method body sees it: the virtual functions of the most
    derived class, one per parameter type. *)
Definition Self (R : Type) : Type := Level -> Ptr -> M U R.

(** A class of the header: the thirteen overloads of its virtual function
    ([handle] with [R = unit], [mutate] with [R = Ptr]), each body taking
    [this] first.  A derived class is the record with some fields replaced. *)
Record Class (R : Type) : Type := mkClass {
  on_Statement : Self R -> Ptr -> M U R;
  on_Expr : Self R -> Ptr -> M U R;
  on_Val : Self R -> Ptr -> M U R;
  (* Vals *)
  on_IterDomain : Self R -> Ptr -> M U R;
  on_TensorDomain : Self R -> Ptr -> M U R;
  on_TensorView : Self R -> Ptr -> M U R;
  on_Float : Self R -> Ptr -> M U R;
  on_Int : Self R -> Ptr -> M U R;
  (* Exprs *)
  on_Split : Self R -> Ptr -> M U R;
  on_Merge : Self R -> Ptr -> M U R;
  on_Reorder : Self R -> Ptr -> M U R;
  on_UnaryOp : Self R -> Ptr -> M U R;
  on_BinaryOp : Self R -> Ptr -> M U R
}.

Arguments on_Statement {R} _.
Arguments on_Expr {R} _.
Arguments on_Val {R} _.
Arguments on_IterDomain {R} _.
Arguments on_TensorDomain {R} _.
Arguments on_TensorView {R} _.
Arguments on_Float {R} _.
Arguments on_Int {R} _.
Arguments on_Split {R} _.
Arguments on_Merge {R} _.
Arguments on_Reorder {R} _.
Arguments on_UnaryOp {R} _.
Arguments on_BinaryOp {R} _.

(** Overload resolution: the body the class has for a parameter type. *)
Definition method {R} (c : Class R) (l : Level) : Self R -> Ptr -> M U R :=
  match l with
  | LStatement => on_Statement c
  | LExpr => on_Expr c
  | LVal => on_Val c
  | LConcrete (KVal IterDomain) => on_IterDomain c
  | LConcrete (KVal TensorDomain) => on_TensorDomain c
  | LConcrete (KVal TensorView) => on_TensorView c
  | LConcrete (KVal Float) => on_Float c
  | LConcrete (KVal Int) => on_Int c
  | LConcrete (KExpr Split) => on_Split c
  | LConcrete (KExpr Merge) => on_Merge c
  | LConcrete (KExpr Reorder) => on_Reorder c
  | LConcrete (KExpr UnaryOp) => on_UnaryOp c
  | LConcrete (KExpr BinaryOp) => on_BinaryOp c
  end.

(** A virtual call on an object of class [c]: the call is recorded, then the
    body of the most derived class runs with [this] bound to the same object.
    The step index bounds the depth of nested virtual calls. *)
Fixpoint vcall {R} (fuel : nat) (c : Class R) (l : Level) (p : Ptr) : M U R :=
  match fuel with
  | O => throw OutOfFuel
  | S fuel' => fun s => method c l (vcall fuel' c) p (log (Call l p) s)
  end.

(** Modelled from the spec: the macro TORCH_INTERNAL_ASSERT comes from
    c10/util/Exception.h, which is not among the sources.  A failed assertion
    is a fatal, assertion-style error surfaced to the caller at once; it
    carries the message given to the macro. *)
Definition TORCH_INTERNAL_ASSERT (cond : bool) (msg : string) : M U unit :=
  if cond then ret tt else throw (AssertFailed msg).

(** Control reaches the end of a function that returns a value. *)
Definition missing_return {R} : M U R := throw UndefinedBehaviour.

(** ** The hierarchical router *)

(** Modelled from the spec: the bodies of [handle(Statement* s)], [handle(Expr* e)]
    and [handle(Val* v)] (and of the matching [mutate] overloads) are declared in
    the header and defined elsewhere.  The Statement-level body reads the
    discriminant, decides whether the node is a [Val] or an [Expr] and
    forwards to that virtual function; the Val-level and Expr-level bodies
    forward to the virtual function of the concrete kind.  A discriminant
    that matches no known kind fails with [UnknownNodeKind].  The input must
    not be null. *)
Definition Statement_dispatch {R} (this : Self R) (s : Ptr) : M U R :=
  fun st =>
    match deref (fusion st) s with
    | None => Err UndefinedBehaviour st
    | Some n =>
        match disc n with
        | SVal _ => this LVal s st
        | SExpr _ => this LExpr s st
        | SUnknown _ => Err UnknownNodeKind st
        end
    end.

Definition Val_dispatch {R} (this : Self R) (v : Ptr) : M U R :=
  fun st =>
    match deref (fusion st) v with
    | None => Err UndefinedBehaviour st
    | Some n =>
        match disc n with
        | SVal (VKnown vt) => this (LConcrete (KVal vt)) v st
        | _ => Err UnknownNodeKind st
        end
    end.

Definition Expr_dispatch {R} (this : Self R) (e : Ptr) : M U R :=
  fun st =>
    match deref (fusion st) e with
    | None => Err UndefinedBehaviour st
    | Some n =>
        match disc n with
        | SExpr (EKnown et) => this (LConcrete (KExpr et)) e st
        | _ => Err UnknownNodeKind st
        end
    end.

(** ** struct OptOutDispatch *)

(** [virtual void handle(IterDomain* ) {}] and the nine like it. *)
Definition OptOutDispatch_handle_IterDomain (this : Self unit) (_ : Ptr) : M U unit := ret tt.
Definition OptOutDispatch_handle_TensorDomain (this : Self unit) (_ : Ptr) : M U unit := ret tt.
Definition OptOutDispatch_handle_TensorView (this : Self unit) (_ : Ptr) : M U unit := ret tt.
Definition OptOutDispatch_handle_Float (this : Self unit) (_ : Ptr) : M U unit := ret tt.
Definition OptOutDispatch_handle_Int (this : Self unit) (_ : Ptr) : M U unit := ret tt.
Definition OptOutDispatch_handle_Split (this : Self unit) (_ : Ptr) : M U unit := ret tt.
Definition OptOutDispatch_handle_Merge (this : Self unit) (_ : Ptr) : M U unit := ret tt.
Definition OptOutDispatch_handle_Reorder (this : Self unit) (_ : Ptr) : M U unit := ret tt.
Definition OptOutDispatch_handle_UnaryOp (this : Self unit) (_ : Ptr) : M U unit := ret tt.
Definition OptOutDispatch_handle_BinaryOp (this : Self unit) (_ : Ptr) : M U unit := ret tt.

Definition OptOutDispatch : Class unit := {|
  on_Statement := Statement_dispatch;
  on_Expr := Expr_dispatch;
  on_Val := Val_dispatch;
  on_IterDomain := OptOutDispatch_handle_IterDomain;
  on_TensorDomain := OptOutDispatch_handle_TensorDomain;
  on_TensorView := OptOutDispatch_handle_TensorView;
  on_Float := OptOutDispatch_handle_Float;
  on_Int := OptOutDispatch_handle_Int;
  on_Split := OptOutDispatch_handle_Split;
  on_Merge := OptOutDispatch_handle_Merge;
  on_Reorder := OptOutDispatch_handle_Reorder;
  on_UnaryOp := OptOutDispatch_handle_UnaryOp;
  on_BinaryOp := OptOutDispatch_handle_BinaryOp
|}.

(** ** struct OptInConstDispatch *)

Definition OptInConstDispatch_handle_IterDomain (this : Self unit) (_ : Ptr) : M U unit :=
  TORCH_INTERNAL_ASSERT false "Handle not overriden for IterDomain.".
Definition OptInConstDispatch_handle_TensorDomain (this : Self unit) (_ : Ptr) : M U unit :=
  TORCH_INTERNAL_ASSERT false "Handle not overriden for TensorDomain.".
Definition OptInConstDispatch_handle_TensorView (this : Self unit) (_ : Ptr) : M U unit :=
  TORCH_INTERNAL_ASSERT false "Handle not overriden for TensorView.".
Definition OptInConstDispatch_handle_Float (this : Self unit) (_ : Ptr) : M U unit :=
  TORCH_INTERNAL_ASSERT false "Handle not overriden for Float.".
Definition OptInConstDispatch_handle_Int (this : Self unit) (_ : Ptr) : M U unit :=
  TORCH_INTERNAL_ASSERT false "Handle not overriden for Int.".
Definition OptInConstDispatch_handle_Split (this : Self unit) (_ : Ptr) : M U unit :=
  TORCH_INTERNAL_ASSERT false "Handle not overriden for Split.".
Definition OptInConstDispatch_handle_Merge (this : Self unit) (_ : Ptr) : M U unit :=
  TORCH_INTERNAL_ASSERT false "Handle not overriden for Merge.".
Definition OptInConstDispatch_handle_Reorder (this : Self unit) (_ : Ptr) : M U unit :=
  TORCH_INTERNAL_ASSERT false "Handle not overriden for Reorder.".
Definition OptInConstDispatch_handle_UnaryOp (this : Self unit) (_ : Ptr) : M U unit :=
  TORCH_INTERNAL_ASSERT false "Handle not overriden for UnaryOp.".
Definition OptInConstDispatch_handle_BinaryOp (this : Self unit) (_ : Ptr) : M U unit :=
  TORCH_INTERNAL_ASSERT false "Handle not overriden for BinaryOp.".

Definition OptInConstDispatch : Class unit := {|
  on_Statement := Statement_dispatch;
  on_Expr := Expr_dispatch;
  on_Val := Val_dispatch;
  on_IterDomain := OptInConstDispatch_handle_IterDomain;
  on_TensorDomain := OptInConstDispatch_handle_TensorDomain;
  on_TensorView := OptInConstDispatch_handle_TensorView;
  on_Float := OptInConstDispatch_handle_Float;
  on_Int := OptInConstDispatch_handle_Int;
  on_Split := OptInConstDispatch_handle_Split;
  on_Merge := OptInConstDispatch_handle_Merge;
  on_Reorder := OptInConstDispatch_handle_Reorder;
  on_UnaryOp := OptInConstDispatch_handle_UnaryOp;
  on_BinaryOp := OptInConstDispatch_handle_BinaryOp
|}.

(** ** struct OptInDispatch *)

Definition OptInDispatch_handle_IterDomain (this : Self unit) (_ : Ptr) : M U unit :=
  TORCH_INTERNAL_ASSERT false "Handle not overriden for IterDomain.".
Definition OptInDispatch_handle_TensorDomain (this : Self unit) (_ : Ptr) : M U unit :=
  TORCH_INTERNAL_ASSERT false "Handle not overriden for TensorDomain.".
Definition OptInDispatch_handle_TensorView (this : Self unit) (_ : Ptr) : M U unit :=
  TORCH_INTERNAL_ASSERT false "Handle not overriden for TensorView.".
Definition OptInDispatch_handle_Float (this : Self unit) (_ : Ptr) : M U unit :=
  TORCH_INTERNAL_ASSERT false "Handle not overriden for Float.".
Definition OptInDispatch_handle_Int (this : Self unit) (_ : Ptr) : M U unit :=
  TORCH_INTERNAL_ASSERT false "Handle not overriden for Int.".
Definition OptInDispatch_handle_Split (this : Self unit) (_ : Ptr) : M U unit :=
  TORCH_INTERNAL_ASSERT false "Handle not overriden for Split.".
Definition OptInDispatch_handle_Merge (this : Self unit) (_ : Ptr) : M U unit :=
  TORCH_INTERNAL_ASSERT false "Handle not overriden for Merge.".
Definition OptInDispatch_handle_Reorder (this : Self unit) (_ : Ptr) : M U unit :=
  TORCH_INTERNAL_ASSERT false "Handle not overriden for Reorder.".
Definition OptInDispatch_handle_UnaryOp (this : Self unit) (_ : Ptr) : M U unit :=
  TORCH_INTERNAL_ASSERT false "Handle not overriden for UnaryOp.".
Definition OptInDispatch_handle_BinaryOp (this : Self unit) (_ : Ptr) : M U unit :=
  TORCH_INTERNAL_ASSERT false "Handle not overriden for BinaryOp.".

Definition OptInDispatch : Class unit := {|
  on_Statement := Statement_dispatch;
  on_Expr := Expr_dispatch;
  on_Val := Val_dispatch;
  on_IterDomain := OptInDispatch_handle_IterDomain;
  on_TensorDomain := OptInDispatch_handle_TensorDomain;
  on_TensorView := OptInDispatch_handle_TensorView;
  on_Float := OptInDispatch_handle_Float;
  on_Int := OptInDispatch_handle_Int;
  on_Split := OptInDispatch_handle_Split;
  on_Merge := OptInDispatch_handle_Merge;
  on_Reorder := OptInDispatch_handle_Reorder;
  on_UnaryOp := OptInDispatch_handle_UnaryOp;
  on_BinaryOp := OptInDispatch_handle_BinaryOp
|}.

(** ** struct OptInMutator *)

(** The body asserts and has no return statement. *)
Definition OptInMutator_mutate_IterDomain (this : Self Ptr) (_ : Ptr) : M U Ptr :=
  TORCH_INTERNAL_ASSERT false "Mutate not overriden for IterDomain." ;;; missing_return.
Definition OptInMutator_mutate_TensorDomain (this : Self Ptr) (_ : Ptr) : M U Ptr :=
  TORCH_INTERNAL_ASSERT false "Mutate not overriden for TensorDomain." ;;; missing_return.
Definition OptInMutator_mutate_TensorView (this : Self Ptr) (_ : Ptr) : M U Ptr :=
  TORCH_INTERNAL_ASSERT false "Mutate not overriden for TensorView." ;;; missing_return.
Definition OptInMutator_mutate_Float (this : Self Ptr) (_ : Ptr) : M U Ptr :=
  TORCH_INTERNAL_ASSERT false "Mutate not overriden for Float." ;;; missing_return.
Definition OptInMutator_mutate_Int (this : Self Ptr) (_ : Ptr) : M U Ptr :=
  TORCH_INTERNAL_ASSERT false "Mutate not overriden for Int." ;;; missing_return.
Definition OptInMutator_mutate_Split (this : Self Ptr) (_ : Ptr) : M U Ptr :=
  TORCH_INTERNAL_ASSERT false "Mutate not overriden for Split." ;;; missing_return.
Definition OptInMutator_mutate_Merge (this : Self Ptr) (_ : Ptr) : M U Ptr :=
  TORCH_INTERNAL_ASSERT false "Mutate not overriden for Merge." ;;; missing_return.
Definition OptInMutator_mutate_Reorder (this : Self Ptr) (_ : Ptr) : M U Ptr :=
  TORCH_INTERNAL_ASSERT false "Mutate not overriden for Reorder." ;;; missing_return.
Definition OptInMutator_mutate_UnaryOp (this : Self Ptr) (_ : Ptr) : M U Ptr :=
  TORCH_INTERNAL_ASSERT false "Mutate not overriden for UnaryOp." ;;; missing_return.
Definition OptInMutator_mutate_BinaryOp (this : Self Ptr) (_ : Ptr) : M U Ptr :=
  TORCH_INTERNAL_ASSERT false "Mutate not overriden for BinaryOp." ;;; missing_return.

Definition OptInMutator : Class Ptr := {|
  on_Statement := Statement_dispatch;
  on_Expr := Expr_dispatch;
  on_Val := Val_dispatch;
  on_IterDomain := OptInMutator_mutate_IterDomain;
  on_TensorDomain := OptInMutator_mutate_TensorDomain;
  on_TensorView := OptInMutator_mutate_TensorView;
  on_Float := OptInMutator_mutate_Float;
  on_Int := OptInMutator_mutate_Int;
  on_Split := OptInMutator_mutate_Split;
  on_Merge := OptInMutator_mutate_Merge;
  on_Reorder := OptInMutator_mutate_Reorder;
  on_UnaryOp := OptInMutator_mutate_UnaryOp;
  on_BinaryOp := OptInMutator_mutate_BinaryOp
|}.

(** ** struct OptOutMutator *)

Definition load (p : Ptr) : M U Node :=
  fun st =>
    match deref (fusion st) p with
    | None => Err UndefinedBehaviour st
    | Some n => Ok n st
    end.

(** Modelled from the spec: the constructors of the IR nodes are not among
    the sources.  A node is created in, and owned by, the fusion; it takes the
    next free address. *)
Definition construct (n : Node) : M U Ptr :=
  fun st =>
    let f := fusion st in
    Ok (At (length (nodes f)))
       (mkState (mkFusion (nodes f ++ [n]) (statements f)) (user st) (trace st)).

Fixpoint mapM {A B} (f : A -> M U B) (l : list A) : M U (list B) :=
  match l with
  | [] => ret []
  | x :: xs => y <- f x ;; ys <- mapM f xs ;; ret (y :: ys)
  end.

(** Modelled from the spec: the ten concrete [mutate] overloads of
    OptOutMutator are declared in the header and defined in mutator.cpp, which
    is not among the sources.  Each performs an identity rewrite: it
    recursively mutates the node's constituents (through the virtual
    Statement-level [mutate], in declared order); if none changed it returns
    the original node, the same reference; otherwise it constructs and returns
    a new node of the same kind made of the rewritten pieces. *)
Definition identity_rewrite (this : Self Ptr) (p : Ptr) : M U Ptr :=
  n <- load p ;;
  cs <- mapM (this LStatement) (constituents n) ;;
  if decide (cs = constituents n) then ret p
  else construct (mkNode (disc n) cs).

Definition OptOutMutator_mutate_IterDomain : Self Ptr -> Ptr -> M U Ptr := identity_rewrite.
Definition OptOutMutator_mutate_TensorDomain : Self Ptr -> Ptr -> M U Ptr := identity_rewrite.
Definition OptOutMutator_mutate_TensorView : Self Ptr -> Ptr -> M U Ptr := identity_rewrite.
Definition OptOutMutator_mutate_Float : Self Ptr -> Ptr -> M U Ptr := identity_rewrite.
Definition OptOutMutator_mutate_Int : Self Ptr -> Ptr -> M U Ptr := identity_rewrite.
Definition OptOutMutator_mutate_Split : Self Ptr -> Ptr -> M U Ptr := identity_rewrite.
Definition OptOutMutator_mutate_Merge : Self Ptr -> Ptr -> M U Ptr := identity_rewrite.
Definition OptOutMutator_mutate_Reorder : Self Ptr -> Ptr -> M U Ptr := identity_rewrite.
Definition OptOutMutator_mutate_UnaryOp : Self Ptr -> Ptr -> M U Ptr := identity_rewrite.
Definition OptOutMutator_mutate_BinaryOp : Self Ptr -> Ptr -> M U Ptr := identity_rewrite.

Definition OptOutMutator : Class Ptr := {|
  on_Statement := Statement_dispatch;
  on_Expr := Expr_dispatch;
  on_Val := Val_dispatch;
  on_IterDomain := OptOutMutator_mutate_IterDomain;
  on_TensorDomain := OptOutMutator_mutate_TensorDomain;
  on_TensorView := OptOutMutator_mutate_TensorView;
  on_Float := OptOutMutator_mutate_Float;
  on_Int := OptOutMutator_mutate_Int;
  on_Split := OptOutMutator_mutate_Split;
  on_Merge := OptOutMutator_mutate_Merge;
  on_Reorder := OptOutMutator_mutate_Reorder;
  on_UnaryOp := OptOutMutator_mutate_UnaryOp;
  on_BinaryOp := OptOutMutator_mutate_BinaryOp
|}.

(** Modelled from the spec: how a fusion replaces a statement is the fusion's
    business.  Here the statement at position [i] of the declared order is
    replaced by [r]. *)
Definition Fusion_replace (i : nat) (r : Ptr) : M U unit :=
  fun st =>
    let f := fusion st in
    Ok tt (mkState (mkFusion (nodes f) (<[i := r]> (statements f)))
                   (user st) (trace st)).

(** Modelled from the spec: the body of [virtual void mutate(Fusion* fusion)]
    is not among the sources.  The whole-fusion rewrite iterates the fusion's
    statements in their declared order and replaces each with the result of
    mutating it. *)
Fixpoint mutate_statements (this : Self Ptr) (i : nat) (todo : list Ptr) : M U unit :=
  match todo with
  | [] => ret tt
  | s :: rest =>
      r <- this LStatement s ;;
      Fusion_replace i r ;;;
      mutate_statements this (S i) rest
  end.

Definition OptOutMutator_mutate_Fusion (this : Self Ptr) : M U unit :=
  fun st => mutate_statements this 0 (statements (fusion st)) st.

(** ** The strategies and their derived classes *)

(** The five classes of the header. *)
Inductive strategy : forall R : Type, Class R -> Prop :=
  | strategy_OptOutDispatch : strategy unit OptOutDispatch
  | strategy_OptInConstDispatch : strategy unit OptInConstDispatch
  | strategy_OptInDispatch : strategy unit OptInDispatch
  | strategy_OptOutMutator : strategy Ptr OptOutMutator
  | strategy_OptInMutator : strategy Ptr OptInMutator.

(** A derived class that overrides one of the abstract-level overloads. *)
Definition override_Statement {R} (c : Class R) (body : Self R -> Ptr -> M U R) : Class R :=
  mkClass R body (on_Expr c) (on_Val c)
    (on_IterDomain c) (on_TensorDomain c) (on_TensorView c) (on_Float c) (on_Int c)
    (on_Split c) (on_Merge c) (on_Reorder c) (on_UnaryOp c) (on_BinaryOp c).

Definition override_Expr {R} (c : Class R) (body : Self R -> Ptr -> M U R) : Class R :=
  mkClass R (on_Statement c) body (on_Val c)
    (on_IterDomain c) (on_TensorDomain c) (on_TensorView c) (on_Float c) (on_Int c)
    (on_Split c) (on_Merge c) (on_Reorder c) (on_UnaryOp c) (on_BinaryOp c).

Definition override_Val {R} (c : Class R) (body : Self R -> Ptr -> M U R) : Class R :=
  mkClass R (on_Statement c) (on_Expr c) body
    (on_IterDomain c) (on_TensorDomain c) (on_TensorView c) (on_Float c) (on_Int c)
    (on_Split c) (on_Merge c) (on_Reorder c) (on_UnaryOp c) (on_BinaryOp c).

(** Code of a derived class that calls no virtual function of the
    dispatcher: it works on the fusion and on the class's own state. *)
Definition UserCode (A : Type) : Type := Fusion -> U -> (Error + A) * Fusion * U.

Definition run_user {A} (f : UserCode A) : M U A :=
  fun st =>
    match f (fusion st) (user st) with
    | (inr a, fu, u) => Ok a (mkState fu u (trace st))
    | (inl e, fu, u) => Err e (mkState fu u (trace st))
    end.

End Classes.

Arguments Self U R : clear implicits.
Arguments Class U R : clear implicits.
Arguments strategy {U R} c.
Arguments UserCode U A : clear implicits.
Arguments on_Statement {U R} c.
Arguments on_Expr {U R} c.
Arguments on_Val {U R} c.
Arguments on_IterDomain {U R} c.
Arguments on_TensorDomain {U R} c.
Arguments on_TensorView {U R} c.
Arguments on_Float {U R} c.
Arguments on_Int {U R} c.
Arguments on_Split {U R} c.
Arguments on_Merge {U R} c.
Arguments on_Reorder {U R} c.
Arguments on_UnaryOp {U R} c.
Arguments on_BinaryOp {U R} c.

(** ** The declarations of the header *)

(** The parameter and return types that occur in the header. *)
Inductive CxxType : Type :=
  | TyFusion
  | TyNode (l : Level).

Inductive CxxRet : Type :=
  | RetVoid
  | RetStatementPtr.

(** One virtual member function: [virtual ret name(param* )], with the two
    [const] qualifiers of [const T* const], and whether the body is given in
    the header. *)
Record Method : Type := mkMethod {
  m_name : string;
  m_ret : CxxRet;
  m_param : CxxType;
  m_const_pointee : bool;
  m_const_pointer : bool;
  m_inline_body : bool
}.

#[export] Instance CxxType_eq_dec : EqDecision CxxType.
Proof. solve_decision. Defined.
#[export] Instance CxxRet_eq_dec : EqDecision CxxRet.
Proof. solve_decision. Defined.
#[export] Instance Method_eq_dec : EqDecision Method.
Proof. solve_decision. Defined.

Definition abstract_levels : list Level := [LStatement; LExpr; LVal].
Definition concrete_levels : list Level := map LConcrete all_kinds.


Definition OptInConstDispatch_surface : list Method :=
  map (fun l => mkMethod "handle" RetVoid (TyNode l) true true false) abstract_levels
  ++ map (fun l => mkMethod "handle" RetVoid (TyNode l) true true true) concrete_levels.

Definition OptInDispatch_surface : list Method :=
  map (fun l => mkMethod "handle" RetVoid (TyNode l) false false false) abstract_levels
  ++ map (fun l => mkMethod "handle" RetVoid (TyNode l) false false true) concrete_levels.

Definition OptOutMutator_surface : list Method :=
  mkMethod "mutate" RetVoid TyFusion false false false
  :: map (fun l => mkMethod "mutate" RetStatementPtr (TyNode l) false false false) abstract_levels
  ++ map (fun l => mkMethod "mutate" RetStatementPtr (TyNode l) false false false) concrete_levels.

Definition OptInMutator_surface : list Method :=
  map (fun l => mkMethod "mutate" RetStatementPtr (TyNode l) false false false) abstract_levels
  ++ map (fun l => mkMethod "mutate" RetStatementPtr (TyNode l) false false true) concrete_levels.

(** The mutator strategies. *)
Definition mutator_surfaces : list (string * list Method) :=
  [ ("OptOutMutator", OptOutMutator_surface); ("OptInMutator", OptInMutator_surface) ].

(** Does the class declare an entry point that takes the whole fusion? *)
Definition is_fusion_entry (m : Method) : bool :=
  bool_decide (m_param m = TyFusion).

Definition exposes_fusion_entry (surface : list Method) : bool :=
  existsb is_fusion_entry surface.

(** Dropping the [const] qualifiers of a declaration. *)
Definition strip_const (m : Method) : Method :=
  mkMethod (m_name m) (m_ret m) (m_param m) false false (m_inline_body m).

(** ** The errors named by the specification *)

(** An opt-in visitor reached a concrete [handle] that was not overridden. *)
Definition HandlerNotOverridden (k : Kind) : Error :=
  AssertFailed ("Handle not overriden for " +:+ kind_name k +:+ ".").

(** An opt-in mutator reached a concrete [mutate] that was not overridden. *)
Definition MutatorNotOverridden (k : Kind) : Error :=
  AssertFailed ("Mutate not overriden for " +:+ kind_name k +:+ ".").

(** ** Well-formed fusions and structural equality *)

(** Every node has a known kind and is composed of nodes created before it. *)
Definition node_wf (a : nat) (n : Node) : Prop :=
  (exists k, disc n = disc_of k) /\
  Forall (fun c => exists b, c = At b /\ b < a) (constituents n).

Definition nodes_wf (h : list Node) : Prop :=
  forall a n, h !! a = Some n -> node_wf a n.

Definition fusion_wf (f : Fusion) : Prop :=
  nodes_wf (nodes f) /\
  Forall (fun s => exists a, s = At a /\ a < length (nodes f)) (statements f).

(** Executable counterparts of the well-formedness conditions. *)
Definition known_disc (d : StmtDisc) : bool :=
  match d with
  | SVal (VKnown _) | SExpr (EKnown _) => true
  | _ => false
  end.

Definition ptr_below (bound : nat) (p : Ptr) : bool :=
  match p with
  | Null => false
  | At b => Nat.ltb b bound
  end.

Fixpoint nodes_wfb (a : nat) (h : list Node) : bool :=
  match h with
  | [] => true
  | n :: h' =>
      known_disc (disc n) && forallb (ptr_below a) (constituents n) && nodes_wfb (S a) h'
  end.

Definition fusion_wfb (f : Fusion) : bool :=
  nodes_wfb 0 (nodes f) && forallb (ptr_below (length (nodes f))) (statements f).

(** Two references denote structurally equal nodes: same discriminant, and
    constituents structurally equal one by one. *)
#[warnings="-register-all"]
Inductive struct_eq (h1 h2 : list Node) : Ptr -> Ptr -> Prop :=
  | struct_eq_node a b n m :
      h1 !! a = Some n ->
      h2 !! b = Some m ->
      disc n = disc m ->
      Forall2 (struct_eq h1 h2) (constituents n) (constituents m) ->
      struct_eq h1 h2 (At a) (At b).

(** Two fusions are structurally equal: their statements are, in order. *)
Definition fusion_struct_eq (f1 f2 : Fusion) : Prop :=
  Forall2 (struct_eq (nodes f1) (nodes f2)) (statements f1) (statements f2).

(** A discriminant the router does not enumerate. *)
Definition unknown_disc (d : StmtDisc) : bool := negb (known_disc d).

(** The two families of nodes, and the abstract level of each. *)
Inductive Family : Type :=
  | FVal
  | FExpr.

Definition family_of (k : Kind) : Family :=
  match k with
  | KVal _ => FVal
  | KExpr _ => FExpr
  end.

Definition level_of (f : Family) : Level :=
  match f with
  | FVal => LVal
  | FExpr => LExpr
  end.

Definition disc_family (d : StmtDisc) : option Family :=
  match d with
  | SVal _ => Some FVal
  | SExpr _ => Some FExpr
  | SUnknown _ => None
  end.

(** A derived class overriding the abstract-level overload of a family. *)
Definition override_family {U R} (f : Family) (c : Class U R)
    (body : Self U R -> Ptr -> M U R) : Class U R :=
  match f with
  | FVal => override_Val c body
  | FExpr => override_Expr c body
  end.

(** A statement of a derived class that updates its own data members. *)
Definition update_user {U} (g : U -> U) : M U unit :=
  fun st => Ok tt (mkState (fusion st) (g (user st)) (trace st)).

(** The state after some more virtual calls were recorded. *)
Definition logged {U} (st : State U) (evs : list Event) : State U :=
  mkState (fusion st) (user st) (trace st ++ evs).

(** A recorded call of a concrete-level overload. *)
Definition is_concrete_call (ev : Event) : bool :=
  match ev with
  | Call (LConcrete _) _ => true
  | Call _ _ => false
  end.

(** Did the call return a value (rather than throw)? *)
Definition returned {U A} (o : Outcome U A) : bool :=
  match o with
  | Ok _ _ => true
  | Err _ _ => false
  end.

(** The node kind named by the diagnostic of a failed assertion, if any. *)
Definition offending_kind (e : Error) : option Kind :=
  match e with
  | AssertFailed msg =>
      find (fun k =>
              String.eqb msg ("Handle not overriden for " +:+ kind_name k +:+ ".")
              || String.eqb msg ("Mutate not overriden for " +:+ kind_name k +:+ "."))
           all_kinds
  | _ => None
  end.

(** A small fusion used to run the definitions: a [Float], a [UnaryOp] on
    it, an [IterDomain], a node of unknown discriminant in the [Val] family
    and one in no family; the first three are its statements. *)
Definition demo_nodes : list Node :=
  [ mkNode (SVal (VKnown Float)) [];
    mkNode (SExpr (EKnown UnaryOp)) [At 0];
    mkNode (SVal (VKnown IterDomain)) [] ].

Definition demo_fusion : Fusion := mkFusion demo_nodes [At 1; At 0; At 2].

Definition demo_state : State nat := mkState demo_fusion 0 [].

Definition odd_fusion : Fusion :=
  mkFusion [ mkNode (SVal (VUnknown 7)) []; mkNode (SUnknown 9) [] ] [At 0; At 1].

Definition odd_state : State nat := mkState odd_fusion 0 [].

(** A derived class overriding the overload of one concrete kind. *)
Definition override_concrete {U R} (k : Kind) (c : Class U R)
    (body : Self U R -> Ptr -> M U R) : Class U R :=
  let pick k' := if decide (k' = k) then body else method c (LConcrete k') in
  mkClass R (on_Statement c) (on_Expr c) (on_Val c)
    (pick (KVal IterDomain)) (pick (KVal TensorDomain)) (pick (KVal TensorView))
    (pick (KVal Float)) (pick (KVal Int))
    (pick (KExpr Split)) (pick (KExpr Merge)) (pick (KExpr Reorder))
    (pick (KExpr UnaryOp)) (pick (KExpr BinaryOp)).

(** The exception a call ended with, if it threw. *)
Definition raised {U A} (o : Outcome U A) : option Error :=
  match o with
  | Ok _ _ => None
  | Err e _ => Some e
  end.

#[export] Instance Error_eq_dec : EqDecision Error.
Proof. solve_decision. Defined.




(** * Properties *)

(** ** Basic facts about virtual calls *)

Lemma vcall_S {U R} (fuel : nat) (c : Class U R) (l : Level) (p : Ptr) (st : State U) :
  vcall (S fuel) c l p st = method c l (vcall fuel c) p (log (Call l p) st).
Proof. reflexivity. Qed.

(** ** The concrete defaults of the visitors *)

(** C5.  For every concrete kind K, the default handler of OptOutDispatch for
    K is a no-op: called on any node it returns normally and leaves the whole
    state as it was; called virtually on an object with no overrides it
    returns normally with the fusion and the object's state unchanged, the
    call itself being the only thing recorded. *)
Theorem OptOutDispatch_default_noop :
  forall (U : Type) (k : Kind) (this : Self U unit) (p : Ptr) (st : State U) (fuel : nat),
    method OptOutDispatch (LConcrete k) this p st = Ok tt st /\
    vcall (S fuel) OptOutDispatch (LConcrete k) p st
      = Ok tt (mkState (fusion st) (user st) (trace st ++ [Call (LConcrete k) p])).
Proof.
  intros U k this p st fuel. rewrite vcall_S.
  destruct k as [[]|[]]; split; reflexivity.
Qed.

(** C10.  The concrete default handlers of OptOutDispatch never read their
    argument: for every concrete kind K the body returns normally on the
    null pointer, on every other pointer (valid or dangling) it does exactly
    what it does on null, and the outcome does not depend on what the fusion
    holds. *)
Theorem OptOutDispatch_default_ignores_argument :
  forall (U : Type) (k : Kind) (this : Self U unit) (st : State U),
    method OptOutDispatch (LConcrete k) this Null st = Ok tt st /\
    (forall p : Ptr,
        method OptOutDispatch (LConcrete k) this p st
        = method OptOutDispatch (LConcrete k) this Null st) /\
    (forall (p : Ptr) (f : Fusion),
        method OptOutDispatch (LConcrete k) this p (mkState f (user st) (trace st))
        = Ok tt (mkState f (user st) (trace st))).
Proof.
  intros U k this st. destruct k as [[]|[]]; repeat split; reflexivity.
Qed.

(** C2.  For every concrete kind K, the default handler of OptInDispatch and
    of OptInConstDispatch for K fails with HandlerNotOverridden(K), both as a
    body and when called virtually on an object with no overrides; the error
    is the failed internal assertion whose message names K, and K is read
    back from the message. *)
Theorem OptIn_default_fails :
  forall (U : Type) (k : Kind) (this : Self U unit) (p : Ptr) (st : State U) (fuel : nat),
    method OptInDispatch (LConcrete k) this p st = Err (HandlerNotOverridden k) st /\
    method OptInConstDispatch (LConcrete k) this p st = Err (HandlerNotOverridden k) st /\
    vcall (S fuel) OptInDispatch (LConcrete k) p st
      = Err (HandlerNotOverridden k) (log (Call (LConcrete k) p) st) /\
    vcall (S fuel) OptInConstDispatch (LConcrete k) p st
      = Err (HandlerNotOverridden k) (log (Call (LConcrete k) p) st) /\
    HandlerNotOverridden k
      = AssertFailed ("Handle not overriden for " +:+ kind_name k +:+ ".") /\
    offending_kind (HandlerNotOverridden k) = Some k.
Proof.
  intros U k this p st fuel. rewrite !vcall_S.
  repeat split; destruct k as [[]|[]]; reflexivity.
Qed.

(** C4.  For every concrete kind K, the default [mutate] of OptInMutator for
    K fails with MutatorNotOverridden(K), both as a body and when called
    virtually on an object with no overrides; no value is returned; the
    message of the failed assertion names K, and K is read back from it. *)
Theorem OptInMutator_default_fails :
  forall (U : Type) (k : Kind) (this : Self U Ptr) (p : Ptr) (st : State U) (fuel : nat),
    method OptInMutator (LConcrete k) this p st = Err (MutatorNotOverridden k) st /\
    vcall (S fuel) OptInMutator (LConcrete k) p st
      = Err (MutatorNotOverridden k) (log (Call (LConcrete k) p) st) /\
    returned (method OptInMutator (LConcrete k) this p st) = false /\
    returned (vcall (S fuel) OptInMutator (LConcrete k) p st) = false /\
    MutatorNotOverridden k
      = AssertFailed ("Mutate not overriden for " +:+ kind_name k +:+ ".") /\
    offending_kind (MutatorNotOverridden k) = Some k.
Proof.
  intros U k this p st fuel. rewrite !vcall_S.
  repeat split; destruct k as [[]|[]]; reflexivity.
Qed.

(** ** The router *)

Lemma logged_nil {U} (st : State U) : logged st [] = st.
Proof. destruct st; unfold logged; simpl. by rewrite app_nil_r. Qed.

Lemma log_logged {U} (st : State U) (evs : list Event) (ev : Event) :
  log ev (logged st evs) = logged st (evs ++ [ev]).
Proof. unfold log, logged; simpl. by rewrite app_assoc. Qed.

Lemma log_is_logged {U} (st : State U) (ev : Event) : log ev st = logged st [ev].
Proof. reflexivity. Qed.

Lemma logged_logged {U} (st : State U) (e1 e2 : list Event) :
  logged (logged st e1) e2 = logged st (e1 ++ e2).
Proof. unfold logged; simpl. by rewrite app_assoc. Qed.

Section Routing.

Context {U R : Type}.
Variable c : Class U R.

Lemma route_Statement (fuel : nat) (p : Ptr) (n : Node) (st : State U) :
  on_Statement c = Statement_dispatch ->
  deref (fusion st) p = Some n ->
  vcall (S fuel) c LStatement p st =
    match disc n with
    | SVal _ => vcall fuel c LVal p (log (Call LStatement p) st)
    | SExpr _ => vcall fuel c LExpr p (log (Call LStatement p) st)
    | SUnknown _ => Err UnknownNodeKind (log (Call LStatement p) st)
    end.
Proof.
  intros Hc Hn. rewrite vcall_S. simpl. rewrite Hc.
  unfold Statement_dispatch. simpl. rewrite Hn. by destruct (disc n).
Qed.

Lemma route_Val (fuel : nat) (p : Ptr) (n : Node) (st : State U) :
  on_Val c = Val_dispatch ->
  deref (fusion st) p = Some n ->
  vcall (S fuel) c LVal p st =
    match disc n with
    | SVal (VKnown vt) => vcall fuel c (LConcrete (KVal vt)) p (log (Call LVal p) st)
    | _ => Err UnknownNodeKind (log (Call LVal p) st)
    end.
Proof.
  intros Hc Hn. rewrite vcall_S. simpl. rewrite Hc.
  unfold Val_dispatch. simpl. rewrite Hn. by destruct (disc n) as [[]|[]|].
Qed.

Lemma route_Expr (fuel : nat) (p : Ptr) (n : Node) (st : State U) :
  on_Expr c = Expr_dispatch ->
  deref (fusion st) p = Some n ->
  vcall (S fuel) c LExpr p st =
    match disc n with
    | SExpr (EKnown et) => vcall fuel c (LConcrete (KExpr et)) p (log (Call LExpr p) st)
    | _ => Err UnknownNodeKind (log (Call LExpr p) st)
    end.
Proof.
  intros Hc Hn. rewrite vcall_S. simpl. rewrite Hc.
  unfold Expr_dispatch. simpl. rewrite Hn. by destruct (disc n) as [[]|[]|].
Qed.

(** Two hops lead from the Statement level to the overload of the kind. *)
Lemma route_to_concrete (fuel : nat) (p : Ptr) (n : Node) (k : Kind) (st : State U) :
  on_Statement c = Statement_dispatch ->
  on_Expr c = Expr_dispatch ->
  on_Val c = Val_dispatch ->
  deref (fusion st) p = Some n ->
  disc n = disc_of k ->
  vcall (S (S fuel)) c LStatement p st
  = vcall fuel c (LConcrete k) p
      (logged st [Call LStatement p; Call (level_of (family_of k)) p]).
Proof.
  intros HS HE HV Hn Hk.
  rewrite (route_Statement _ p n st HS Hn), Hk.
  destruct k as [v|e]; cbn [disc_of family_of level_of].
  - rewrite (route_Val fuel p n (log (Call LStatement p) st) HV Hn), Hk.
    cbn [disc_of]. by rewrite (log_is_logged st), log_logged.
  - rewrite (route_Expr fuel p n (log (Call LStatement p) st) HE Hn), Hk.
    cbn [disc_of]. by rewrite (log_is_logged st), log_logged.
Qed.

End Routing.

Lemma strategy_routes {U R} (c : Class U R) :
  strategy c ->
  on_Statement c = Statement_dispatch /\
  on_Expr c = Expr_dispatch /\
  on_Val c = Val_dispatch.
Proof. intros H. destruct H; repeat split. Qed.

Lemma run_user_trace {U A} (f : UserCode U A) (st : State U) :
  trace (final (run_user f st)) = trace st.
Proof.
  unfold run_user. destruct (f (fusion st) (user st)) as [[[e|a] fu] u]; reflexivity.
Qed.

Lemma override_family_Statement {U R} (fam : Family) (c : Class U R)
    (body : Self U R -> Ptr -> M U R) :
  on_Statement (override_family fam c body) = on_Statement c.
Proof. by destruct fam. Qed.

Lemma override_family_own {U R} (fam : Family) (c : Class U R)
    (body : Self U R -> Ptr -> M U R) :
  method (override_family fam c body) (level_of fam) = body.
Proof. by destruct fam. Qed.

Lemma override_family_concrete {U R} (fam : Family) (c : Class U R)
    (body : Self U R -> Ptr -> M U R) (k : Kind) :
  method (override_family fam c body) (LConcrete k) = method c (LConcrete k).
Proof. by destruct fam, k as [[]|[]]. Qed.

(** From the Statement level, one hop leads to the abstract-level overload of
    the node's family, whatever its body is. *)
Lemma route_to_family {U R} (c : Class U R) (fuel : nat) (p : Ptr) (n : Node)
    (fam : Family) (st : State U) :
  on_Statement c = Statement_dispatch ->
  deref (fusion st) p = Some n ->
  disc_family (disc n) = Some fam ->
  vcall (S (S fuel)) c LStatement p st
  = method c (level_of fam) (vcall fuel c) p
      (logged st [Call LStatement p; Call (level_of fam) p]).
Proof.
  intros HS Hn Hfam.
  rewrite (route_Statement c (S fuel) p n st HS Hn).
  destruct (disc n) as [d|d|t]; simpl in Hfam; try discriminate Hfam;
    injection Hfam as <-; rewrite vcall_S; cbn [level_of];
    by rewrite (log_is_logged st), log_logged.
Qed.

(** C1.  For every strategy, the Statement-level default routes a node to the
    Val-level or Expr-level overload of its family, whose default routes it
    to the overload of its concrete kind.  In a derived class that overrides
    the Val-level (resp. Expr-level) overload with a body that calls no
    virtual function, a node of that family gets the override and nothing
    else: the Statement and abstract-level calls are the only ones made, no
    concrete-level overload runs.  An override that forwards to the
    strategy's own abstract-level body does reach the concrete overload. *)
Theorem abstract_level_routing :
  forall (U R : Type) (c : Class U R),
    strategy c ->
    forall (fuel : nat) (p : Ptr) (n : Node) (st : State U),
      deref (fusion st) p = Some n ->
      (forall k : Kind,
          disc n = disc_of k ->
          vcall (S (S (S fuel))) c LStatement p st
          = method c (LConcrete k) (vcall fuel c) p
              (logged st [Call LStatement p; Call (level_of (family_of k)) p;
                          Call (LConcrete k) p])) /\
      (forall (fam : Family) (body : Ptr -> UserCode U R),
          disc_family (disc n) = Some fam ->
          let c' := override_family fam c (fun _ q => run_user (body q)) in
          let evs := [Call LStatement p; Call (level_of fam) p] in
          vcall (S (S fuel)) c' LStatement p st = run_user (body p) (logged st evs) /\
          trace (final (vcall (S (S fuel)) c' LStatement p st)) = trace st ++ evs /\
          existsb is_concrete_call evs = false) /\
      (forall (k : Kind) (g : U -> U),
          disc n = disc_of k ->
          let fam := family_of k in
          let c' := override_family fam c
                      (fun this q => update_user g ;;; method c (level_of fam) this q) in
          vcall (S (S (S fuel))) c' LStatement p st
          = method c' (LConcrete k) (vcall fuel c') p
              (mkState (fusion st) (g (user st))
                 (trace st ++ [Call LStatement p; Call (level_of fam) p;
                               Call (LConcrete k) p]))).
Proof.
  intros U R c Hs fuel p n st Hn.
  destruct (strategy_routes c Hs) as (HS & HE & HV).
  split; [|split].
  - intros k Hk.
    rewrite (route_to_concrete c (S fuel) p n k st HS HE HV Hn Hk).
    rewrite vcall_S. by rewrite log_logged.
  - intros fam body Hfam c' evs.
    assert (Heq : vcall (S (S fuel)) c' LStatement p st
                  = run_user (body p) (logged st evs)).
    { unfold c'. rewrite (route_to_family _ fuel p n fam st); try done.
      - by rewrite override_family_own.
      - by rewrite override_family_Statement. }
    split; [exact Heq|]. split.
    + rewrite Heq, run_user_trace. reflexivity.
    + by destruct fam.
  - intros k g Hk fam c'.
    assert (Hfam : disc_family (disc n) = Some fam)
      by (rewrite Hk; by destruct k).
    unfold c' at 1. rewrite (route_to_family _ (S fuel) p n fam st); try done;
      [|by rewrite override_family_Statement].
    rewrite override_family_own. fold c'.
    unfold bind, update_user. cbn [fusion user trace logged].
    subst fam.
    destruct k as [v|e]; cbn [family_of level_of] in *; cbn [method].
    + rewrite HV. unfold Val_dispatch. cbn [fusion]. rewrite Hn, Hk.
      cbn [disc_of]. rewrite vcall_S. unfold log. cbn [fusion user trace].
      by rewrite <- app_assoc.
    + rewrite HE. unfold Expr_dispatch. cbn [fusion]. rewrite Hn, Hk.
      cbn [disc_of]. rewrite vcall_S. unfold log. cbn [fusion user trace].
      by rewrite <- app_assoc.
Qed.

(** C7.  For every strategy and every node whose discriminant is not one of
    the enumerated concrete kinds, the Statement-level entry point fails with
    UnknownNodeKind.  The failure comes from the router: only abstract-level
    calls were made when it is raised, the fusion and the object's state are
    untouched, and entering at the Val or Expr level of the node's family
    fails in the same way. *)
Theorem unknown_kind_fails :
  forall (U R : Type) (c : Class U R),
    strategy c ->
    forall (fuel : nat) (p : Ptr) (n : Node) (st : State U),
      deref (fusion st) p = Some n ->
      unknown_disc (disc n) = true ->
      (exists evs : list Event,
          vcall (S (S fuel)) c LStatement p st = Err UnknownNodeKind (logged st evs) /\
          existsb is_concrete_call evs = false) /\
      (forall fam : Family,
          disc_family (disc n) = Some fam ->
          vcall (S fuel) c (level_of fam) p st
          = Err UnknownNodeKind (logged st [Call (level_of fam) p])).
Proof.
  intros U R c Hs fuel p n st Hn Hu.
  destruct (strategy_routes c Hs) as (HS & HE & HV).
  split.
  - rewrite (route_Statement c (S fuel) p n st HS Hn).
    destruct (disc n) as [[v|t]|[e|t]|t] eqn:Hd; try discriminate Hu.
    + exists [Call LStatement p; Call LVal p]. split; [|reflexivity].
      rewrite (route_Val c fuel p n (log (Call LStatement p) st) HV Hn), Hd.
      by rewrite (log_is_logged st), log_logged.
    + exists [Call LStatement p; Call LExpr p]. split; [|reflexivity].
      rewrite (route_Expr c fuel p n (log (Call LStatement p) st) HE Hn), Hd.
      by rewrite (log_is_logged st), log_logged.
    + exists [Call LStatement p]. split; reflexivity.
  - intros fam Hfam.
    destruct (disc n) as [[v|t]|[e|t]|t] eqn:Hd; try discriminate Hu;
      simpl in Hfam; try discriminate Hfam; injection Hfam as <-; cbn [level_of].
    + by rewrite (route_Val c fuel p n st HV Hn), Hd.
    + by rewrite (route_Expr c fuel p n st HE Hn), Hd.
Qed.

(** C8.  OptInConstDispatch and OptInDispatch declare the same overloads, in
    the same order, the former with [const] on every parameter and the latter
    with none; every overload has the same behaviour in both classes, so
    every virtual call has the same outcome; and the default of every
    concrete kind K fails with HandlerNotOverridden(K) in both. *)
Theorem OptInConstDispatch_same_as_OptInDispatch :
  map strip_const OptInConstDispatch_surface = OptInDispatch_surface /\
  Forall (fun m => m_const_pointee m = true /\ m_const_pointer m = true)
    OptInConstDispatch_surface /\
  Forall (fun m => m_const_pointee m = false /\ m_const_pointer m = false)
    OptInDispatch_surface /\
  (forall (U : Type) (l : Level) (this : Self U unit) (p : Ptr) (st : State U),
      method OptInConstDispatch l this p st = method OptInDispatch l this p st) /\
  (forall (U : Type) (fuel : nat) (l : Level) (p : Ptr) (st : State U),
      vcall fuel OptInConstDispatch l p st = vcall fuel OptInDispatch l p st) /\
  (forall (U : Type) (k : Kind) (this : Self U unit) (p : Ptr) (st : State U),
      method OptInConstDispatch (LConcrete k) this p st = Err (HandlerNotOverridden k) st /\
      method OptInDispatch (LConcrete k) this p st = Err (HandlerNotOverridden k) st).
Proof.
  assert (Hm : forall (U : Type) (l : Level) (this : Self U unit) (p : Ptr) (st : State U),
             method OptInConstDispatch l this p st = method OptInDispatch l this p st)
    by (intros U [| | |[[]|[]]] this p st; reflexivity).
  split; [reflexivity|]. split; [repeat constructor|]. split; [repeat constructor|].
  split; [exact Hm|]. split.
  - intros U fuel. induction fuel as [|fuel IH]; intros l p st; [reflexivity|].
    rewrite !vcall_S, Hm. reflexivity.
  - intros U k this p st. split; destruct k as [[]|[]]; reflexivity.
Qed.

(** ** Well-formedness, checked by computation *)

Lemma known_disc_sound (d : StmtDisc) :
  known_disc d = true -> exists k, d = disc_of k.
Proof.
  destruct d as [[v|t]|[e|t]|t]; simpl; intros H; try discriminate H.
  - by exists (KVal v).
  - by exists (KExpr e).
Qed.

Lemma ptr_below_sound (bound : nat) (p : Ptr) :
  ptr_below bound p = true -> exists b, p = At b /\ b < bound.
Proof.
  destruct p as [|b]; simpl; intros H; [discriminate H|].
  exists b. split; [reflexivity|]. by apply Nat.ltb_lt.
Qed.

Lemma forallb_ptr_below (bound : nat) (l : list Ptr) :
  forallb (ptr_below bound) l = true ->
  Forall (fun c => exists b, c = At b /\ b < bound) l.
Proof.
  induction l as [|x l IH]; simpl; intros H; constructor.
  - apply andb_true_iff in H as [H _]. by apply ptr_below_sound.
  - apply andb_true_iff in H as [_ H]. auto.
Qed.

Lemma nodes_wfb_from (i : nat) (h : list Node) :
  nodes_wfb i h = true ->
  forall a n, h !! a = Some n -> node_wf (i + a) n.
Proof.
  revert i. induction h as [|x h IH]; intros i H a n Hl; [by destruct a|].
  simpl in H. apply andb_true_iff in H as [H Hrest].
  apply andb_true_iff in H as [Hk Hc].
  destruct a as [|a]; simpl in Hl.
  - injection Hl as <-. rewrite Nat.add_0_r. split.
    + by apply known_disc_sound.
    + by apply forallb_ptr_below.
  - replace (i + S a) with (S i + a) by lia. by apply IH.
Qed.

Lemma nodes_wfb_sound (h : list Node) : nodes_wfb 0 h = true -> nodes_wf h.
Proof. intros H a n Hl. exact (nodes_wfb_from 0 h H a n Hl). Qed.

Lemma fusion_wfb_sound (f : Fusion) : fusion_wfb f = true -> fusion_wf f.
Proof.
  unfold fusion_wfb. intros H. apply andb_true_iff in H as [Hn Hs]. split.
  - by apply nodes_wfb_sound.
  - by apply forallb_ptr_below.
Qed.

(** ** The identity rewrite of OptOutMutator *)

Section Identity.

Context {U : Type}.

(** Mapping a rewrite that gives every element back, and only records calls,
    gives the list back. *)
Lemma mapM_fixed (F : Fusion) (f : Ptr -> M U Ptr) (l : list Ptr) :
  (forall x, x ∈ l ->
     forall st, fusion st = F -> exists evs, f x st = Ok x (logged st evs)) ->
  forall st, fusion st = F -> exists evs, mapM f l st = Ok l (logged st evs).
Proof.
  induction l as [|x l IH]; intros Hf st HF.
  - exists []. simpl. unfold ret. by rewrite logged_nil.
  - destruct (Hf x (list_elem_of_here x l) st HF) as [e1 H1].
    destruct (IH (fun y Hy => Hf y (list_elem_of_further y x l Hy))
                 (logged st e1) HF) as [e2 H2].
    exists (e1 ++ e2). simpl. unfold bind at 1. rewrite H1.
    unfold bind at 1. rewrite H2. unfold ret. by rewrite logged_logged.
Qed.

(** The identity rewrite gives the node back when every constituent is
    rewritten to itself. *)
Lemma identity_rewrite_fixed (F : Fusion) (this : Self U Ptr) (a : nat) (n : Node) :
  nodes F !! a = Some n ->
  (forall x, x ∈ constituents n ->
     forall st, fusion st = F -> exists evs, this LStatement x st = Ok x (logged st evs)) ->
  forall st, fusion st = F ->
    exists evs, identity_rewrite this (At a) st = Ok (At a) (logged st evs).
Proof.
  intros Hn Hthis st HF.
  destruct (mapM_fixed F (this LStatement) (constituents n) Hthis st HF) as [evs Hevs].
  exists evs. unfold identity_rewrite, bind at 1, load.
  rewrite HF. simpl deref. rewrite Hn.
  unfold bind. rewrite Hevs. by rewrite decide_True.
Qed.

Lemma OptOutMutator_concrete_body (k : Kind) :
  method (@OptOutMutator U) (LConcrete k) = identity_rewrite.
Proof. by destruct k as [[]|[]]. Qed.

(** With no overrides, the rewrite of a node of a well-formed fusion returns
    the pointer it was given and leaves the fusion alone. *)
Lemma OptOutMutator_identity_at (F : Fusion) :
  nodes_wf (nodes F) ->
  forall (a : nat) (n : Node),
    nodes F !! a = Some n ->
    forall (fuel : nat) (st : State U),
      fusion st = F ->
      3 * a + 3 <= fuel ->
      exists evs,
        vcall fuel OptOutMutator LStatement (At a) st = Ok (At a) (logged st evs).
Proof.
  intros Hwf a. induction (lt_wf a) as [a _ IH].
  intros n Hn fuel st HF Hfuel.
  destruct fuel as [|[|[|fuel]]]; try lia.
  destruct (Hwf a n Hn) as [[k Hk] Hcs].
  assert (Hd : deref (fusion st) (At a) = Some n) by (by rewrite HF).
  rewrite (route_to_concrete OptOutMutator (S fuel) (At a) n k st
             eq_refl eq_refl eq_refl Hd Hk).
  rewrite vcall_S, log_logged, OptOutMutator_concrete_body.
  destruct (identity_rewrite_fixed F (vcall fuel OptOutMutator) a n Hn)
    with (st := logged st ([Call LStatement (At a);
                            Call (level_of (family_of k)) (At a)]
                           ++ [Call (LConcrete k) (At a)]))
    as [evs Hevs]; [|exact HF|].
  - intros x Hx st' HF'.
    rewrite Forall_forall in Hcs. destruct (Hcs x Hx) as (b & -> & Hb).
    assert (Hlen : b < length (nodes F)).
    { apply lookup_lt_Some in Hn. lia. }
    destruct (lookup_lt_is_Some_2 _ _ Hlen) as [nb Hnb].
    apply (IH b Hb nb Hnb fuel st' HF'). lia.
  - rewrite Hevs, logged_logged. eauto.
Qed.

(** Position-wise replacement by the results of an identity rewrite leaves
    the statement list as it was. *)
Lemma mutate_statements_fixed (F : Fusion) (this : Self U Ptr) (todo : list Ptr) :
  (forall s, s ∈ todo ->
     forall st, fusion st = F -> exists evs, this LStatement s st = Ok s (logged st evs)) ->
  forall (i : nat) (st : State U),
    fusion st = F ->
    (forall j s, todo !! j = Some s -> statements F !! (i + j) = Some s) ->
    exists evs, mutate_statements this i todo st = Ok tt (logged st evs).
Proof.
  induction todo as [|s todo IH]; intros Hthis i st HF Hidx.
  - exists []. simpl. unfold ret. by rewrite logged_nil.
  - destruct (Hthis s (list_elem_of_here s todo) st HF) as [e1 H1].
    assert (Hs : statements F !! i = Some s).
    { specialize (Hidx 0 s eq_refl). by rewrite Nat.add_0_r in Hidx. }
    destruct (IH (fun y Hy => Hthis y (list_elem_of_further y s todo Hy))
                 (S i) (logged st e1) HF) as [e2 H2].
    { intros j y Hy. replace (S i + j) with (i + S j) by lia. by apply Hidx. }
    exists (e1 ++ e2). simpl. unfold bind at 1. rewrite H1.
    unfold bind at 1, Fusion_replace. cbn [fusion user trace logged].
    rewrite HF, (list_insert_id _ _ _ Hs).
    assert (Hst : mkState (mkFusion (nodes F) (statements F)) (user st) (trace st ++ e1)
                  = logged st e1).
    { unfold logged. rewrite HF. by destruct F. }
    rewrite Hst, H2. by rewrite logged_logged.
Qed.

End Identity.

(** Structural equality is reflexive on the nodes of a well-formed store. *)
Lemma struct_eq_refl (h : list Node) :
  nodes_wf h ->
  forall a, a < length h -> struct_eq h h (At a) (At a).
Proof.
  intros Hwf a. induction (lt_wf a) as [a _ IH]. intros Ha.
  destruct (lookup_lt_is_Some_2 _ _ Ha) as [n Hn].
  apply (struct_eq_node h h a a n n Hn Hn eq_refl).
  destruct (Hwf a n Hn) as [_ Hcs].
  induction Hcs as [|c cs (b & -> & Hb) _ IHcs]; constructor; [|exact IHcs].
  apply IH; [exact Hb|lia].
Qed.

Lemma fusion_struct_eq_refl (f : Fusion) : fusion_wf f -> fusion_struct_eq f f.
Proof.
  intros [Hn Hs]. unfold fusion_struct_eq.
  induction Hs as [|s ss (a & -> & Ha) _ IH]; constructor; [|exact IH].
  by apply struct_eq_refl.
Qed.

(** C3.  For every concrete kind K, OptOutMutator with no overrides, invoked
    on a node of kind K of a well-formed fusion, returns the very pointer it
    was given: the same node object, not a copy.  This holds at the
    Statement-level entry point and at the overload of K itself; no node is
    constructed and the fusion and the object's state are as before. *)
Theorem OptOutMutator_default_identity :
  forall (U : Type) (k : Kind) (a : nat) (n : Node) (st : State U) (fuel : nat),
    nodes_wf (nodes (fusion st)) ->
    nodes (fusion st) !! a = Some n ->
    disc n = disc_of k ->
    3 * a + 3 <= fuel ->
    (exists evs, vcall fuel OptOutMutator LStatement (At a) st
                 = Ok (At a) (logged st evs)) /\
    (exists evs, vcall fuel OptOutMutator (LConcrete k) (At a) st
                 = Ok (At a) (logged st evs)).
Proof.
  intros U k a n st fuel Hwf Hn Hk Hfuel. split.
  - by apply (OptOutMutator_identity_at (fusion st) Hwf a n Hn).
  - destruct fuel as [|fuel]; [lia|].
    rewrite vcall_S, OptOutMutator_concrete_body.
    destruct (identity_rewrite_fixed (fusion st) (vcall fuel (@OptOutMutator U)) a n Hn)
      with (st := log (Call (LConcrete k) (At a)) st) as [evs Hevs]; [|reflexivity|].
    + intros x Hx st' HF'.
      destruct (Hwf a n Hn) as [_ Hcs].
      rewrite Forall_forall in Hcs. destruct (Hcs x Hx) as (b & -> & Hb).
      assert (Hlen : b < length (nodes (fusion st))).
      { apply lookup_lt_Some in Hn. lia. }
      destruct (lookup_lt_is_Some_2 _ _ Hlen) as [nb Hnb].
      apply (OptOutMutator_identity_at (fusion st) Hwf b nb Hnb fuel st' HF'). lia.
    + rewrite Hevs, (log_is_logged st), logged_logged. eauto.
Qed.

(** C6.  Round trip: on a well-formed fusion, the whole-fusion rewrite of
    OptOutMutator with no overrides completes and yields a fusion that is
    structurally equal to the input fusion; it is in fact the same fusion,
    and the object's state is unchanged. *)
Theorem OptOutMutator_fusion_roundtrip :
  forall (U : Type) (st : State U) (fuel : nat),
    fusion_wf (fusion st) ->
    3 * length (nodes (fusion st)) <= fuel ->
    exists st' : State U,
      OptOutMutator_mutate_Fusion (vcall fuel OptOutMutator) st = Ok tt st' /\
      fusion_struct_eq (fusion st) (fusion st') /\
      fusion st' = fusion st /\
      user st' = user st.
Proof.
  intros U st fuel Hwf Hfuel. pose proof Hwf as [Hn Hs].
  destruct (mutate_statements_fixed (fusion st) (vcall fuel (@OptOutMutator U))
              (statements (fusion st)))
    with (i := 0) (st := st) as [evs Hevs]; [|reflexivity|by intros j s Hj|].
  - intros s Hin st' HF'.
    rewrite Forall_forall in Hs. destruct (Hs s Hin) as (a & -> & Ha).
    destruct (lookup_lt_is_Some_2 _ _ Ha) as [na Hna].
    apply (OptOutMutator_identity_at (fusion st) Hn a na Hna fuel st' HF'). lia.
  - exists (logged st evs). unfold OptOutMutator_mutate_Fusion.
    split; [exact Hevs|]. split; [|split; reflexivity].
    by apply fusion_struct_eq_refl.
Qed.

(** ** The whole-fusion entry point *)

Lemma mutate_statements_pure {U} (g : Ptr -> Ptr) (fuel : nat) (todo : list Ptr) :
  let c := override_Statement OptOutMutator (fun _ s => ret (g s)) in
  forall (pre post : list Ptr) (st : State U),
    statements (fusion st) = pre ++ todo ++ post ->
    mutate_statements (vcall (S fuel) c) (length pre) todo st
    = Ok tt (mkState (mkFusion (nodes (fusion st)) (pre ++ map g todo ++ post))
                     (user st)
                     (trace st ++ map (Call LStatement) todo)).
Proof.
  intros c. induction todo as [|s todo IH]; intros pre post st Hst.
  - simpl. unfold ret. rewrite app_nil_r. simpl in Hst. rewrite <- Hst.
    by destruct st as [[] ? ?].
  - cbn [mutate_statements]. unfold bind at 1. rewrite vcall_S.
    cbn [c method override_Statement on_Statement]. unfold ret at 1.
    unfold bind at 1, Fusion_replace. cbn [fusion user trace log].
    rewrite Hst.
    replace (<[length pre := g s]> (pre ++ (s :: todo) ++ post))
      with ((pre ++ [g s]) ++ todo ++ post).
    2:{ rewrite insert_app_r_alt by lia. rewrite Nat.sub_diag. simpl.
        by rewrite <- app_assoc. }
    replace (S (length pre)) with (length (pre ++ [g s]))
      by (rewrite length_app; simpl; lia).
    rewrite (IH (pre ++ [g s]) post) by reflexivity.
    cbn [fusion user trace nodes map].
    by rewrite <- !app_assoc.
Qed.

(** C9 (as amended).  OptOutMutator declares the whole-fusion entry point
    [void mutate(Fusion* fusion)]; OptInMutator declares none, only the
    Statement, Expr, Val and concrete-kind overloads.  The entry point of
    OptOutMutator applies the Statement-level rewrite to each statement of
    the fusion once, in the fusion's declared order, and hands each result to
    the fusion, which puts it in the statement's place. *)
Theorem whole_fusion_entry_point :
  In (mkMethod "mutate" RetVoid TyFusion false false false) OptOutMutator_surface /\
  exposes_fusion_entry OptOutMutator_surface = true /\
  exposes_fusion_entry OptInMutator_surface = false /\
  map m_param OptInMutator_surface = map TyNode (abstract_levels ++ concrete_levels) /\
  (forall (U : Type) (g : Ptr -> Ptr) (fuel : nat) (st : State U),
      OptOutMutator_mutate_Fusion
        (vcall (S fuel) (override_Statement OptOutMutator (fun _ s => ret (g s)))) st
      = Ok tt (mkState
                 (mkFusion (nodes (fusion st)) (map g (statements (fusion st))))
                 (user st)
                 (trace st ++ map (Call LStatement) (statements (fusion st))))).
Proof.
  split; [by left|]. split; [reflexivity|]. split; [reflexivity|].
  split; [reflexivity|].
  intros U g fuel st. unfold OptOutMutator_mutate_Fusion.
  pose proof (mutate_statements_pure g fuel (statements (fusion st)) [] [] st) as H.
  cbn [length app] in H. rewrite H by (by rewrite app_nil_r).
  by rewrite app_nil_r.
Qed.

(** C9, as stated, fails: not every mutator strategy exposes a whole-fusion
    entry point, since OptInMutator declares none. *)
Lemma not_every_mutator_has_fusion_entry :
  ~ (forall sf, In sf mutator_surfaces -> exposes_fusion_entry (snd sf) = true).
Proof.
  intros H.
  specialize (H ("OptInMutator", OptInMutator_surface) (or_intror (or_introl eq_refl))).
  discriminate H.
Qed.

(** ** The definitions at work *)

(** An opt-out visitor that counts the unary operations it meets: the
    override runs once, nothing else changes. *)
Example counting_UnaryOp :
  vcall 3 (override_concrete (KExpr UnaryOp) OptOutDispatch
             (fun _ _ => update_user S))
        LStatement (At 1) demo_state
  = Ok tt (mkState demo_fusion 1
             [Call LStatement (At 1); Call LExpr (At 1);
              Call (LConcrete (KExpr UnaryOp)) (At 1)]).
Proof. reflexivity. Qed.

(** Through the router, an opt-out visitor with no overrides swallows the
    node, and an opt-in visitor fails on it. *)
Example routed_OptOutDispatch :
  vcall 3 OptOutDispatch LStatement (At 0) demo_state
  = Ok tt (logged demo_state
             [Call LStatement (At 0); Call LVal (At 0);
              Call (LConcrete (KVal Float)) (At 0)]).
Proof. reflexivity. Qed.

Example routed_OptInDispatch :
  vcall 3 OptInDispatch LStatement (At 1) demo_state
  = Err (HandlerNotOverridden (KExpr UnaryOp))
        (logged demo_state
           [Call LStatement (At 1); Call LExpr (At 1);
            Call (LConcrete (KExpr UnaryOp)) (At 1)]).
Proof. reflexivity. Qed.

Example routed_OptInMutator :
  vcall 3 OptInMutator LStatement (At 2) demo_state
  = Err (MutatorNotOverridden (KVal IterDomain))
        (logged demo_state
           [Call LStatement (At 2); Call LVal (At 2);
            Call (LConcrete (KVal IterDomain)) (At 2)]).
Proof. reflexivity. Qed.

(** The router dereferences its argument; the concrete defaults do not. *)
Example router_on_null :
  vcall 3 OptOutDispatch LStatement Null demo_state
  = Err UndefinedBehaviour (logged demo_state [Call LStatement Null]).
Proof. reflexivity. Qed.

(** An [IterDomain] under OptOutMutator with no overrides: same reference. *)
Example identity_on_IterDomain :
  vcall 3 OptOutMutator LStatement (At 2) demo_state
  = Ok (At 2) (logged demo_state
                 [Call LStatement (At 2); Call LVal (At 2);
                  Call (LConcrete (KVal IterDomain)) (At 2)]).
Proof. reflexivity. Qed.

(** A [UnaryOp] on a [Float], under an OptOutMutator whose [mutate] for
    [Float] returns a fresh [Float]: the result is a new [UnaryOp] on the new
    [Float]; the original nodes are still there, unchanged. *)
Example rewritten_UnaryOp :
  let c := override_concrete (KVal Float) OptOutMutator
             (fun _ _ => construct (mkNode (SVal (VKnown Float)) [])) in
  exists st' : State nat,
    vcall 6 c LStatement (At 1) demo_state = Ok (At 4) st' /\
    nodes (fusion st') = demo_nodes ++ [ mkNode (SVal (VKnown Float)) [];
                                         mkNode (SExpr (EKnown UnaryOp)) [At 3] ].
Proof. eexists. split; reflexivity. Qed.

(** Too little fuel is reported as such, never as a result. *)
Example fuel_runs_out :
  vcall 2 OptOutDispatch LStatement (At 0) demo_state
  = Err OutOfFuel (logged demo_state [Call LStatement (At 0); Call LVal (At 0)]).
Proof. reflexivity. Qed.

(** ** Instances of the conditional theorems *)

Lemma abstract_level_routing_witness :
  strategy (@OptInDispatch nat) /\
  deref (fusion demo_state) (At 1) = Some (mkNode (SExpr (EKnown UnaryOp)) [At 0]) /\
  vcall 3 OptInDispatch LStatement (At 1) demo_state
  = Err (HandlerNotOverridden (KExpr UnaryOp))
        (logged demo_state
           [Call LStatement (At 1); Call LExpr (At 1);
            Call (LConcrete (KExpr UnaryOp)) (At 1)]) /\
  vcall 2 (override_Expr OptInDispatch
             (fun _ _ => run_user (fun fu u => (inr tt, fu, S u))))
        LStatement (At 1) demo_state
  = Ok tt (mkState demo_fusion 1 [Call LStatement (At 1); Call LExpr (At 1)]) /\
  vcall 3 (override_Expr OptInDispatch
             (fun this q => update_user S ;;; on_Expr OptInDispatch this q))
        LStatement (At 1) demo_state
  = Err (HandlerNotOverridden (KExpr UnaryOp))
        (mkState demo_fusion 1
           [Call LStatement (At 1); Call LExpr (At 1);
            Call (LConcrete (KExpr UnaryOp)) (At 1)]).
Proof.
  destruct (abstract_level_routing nat unit OptInDispatch strategy_OptInDispatch
              0 (At 1) (mkNode (SExpr (EKnown UnaryOp)) [At 0]) demo_state eq_refl)
    as (H1 & H2 & H3).
  split; [constructor|]. split; [reflexivity|]. split; [|split].
  - exact (H1 (KExpr UnaryOp) eq_refl).
  - exact (proj1 (H2 FExpr (fun _ fu u => (inr tt, fu, S u)) eq_refl)).
  - exact (H3 (KExpr UnaryOp) S eq_refl).
Defined.

Lemma unknown_kind_fails_witness :
  strategy (@OptOutDispatch nat) /\
  deref (fusion odd_state) (At 0) = Some (mkNode (SVal (VUnknown 7)) []) /\
  unknown_disc (SVal (VUnknown 7)) = true /\
  (exists evs : list Event,
      vcall 2 OptOutDispatch LStatement (At 0) odd_state
      = Err UnknownNodeKind (logged odd_state evs) /\
      existsb is_concrete_call evs = false) /\
  vcall 1 OptOutDispatch LVal (At 0) odd_state
  = Err UnknownNodeKind (logged odd_state [Call LVal (At 0)]).
Proof.
  destruct (unknown_kind_fails nat unit OptOutDispatch strategy_OptOutDispatch
              0 (At 0) (mkNode (SVal (VUnknown 7)) []) odd_state eq_refl eq_refl)
    as [H1 H2].
  split; [constructor|]. split; [reflexivity|]. split; [reflexivity|].
  split; [exact H1|]. exact (H2 FVal eq_refl).
Defined.

Lemma OptOutMutator_default_identity_witness :
  nodes_wf (nodes (fusion demo_state)) /\
  nodes (fusion demo_state) !! 1 = Some (mkNode (SExpr (EKnown UnaryOp)) [At 0]) /\
  3 * 1 + 3 <= 6 /\
  (exists evs, vcall 6 OptOutMutator LStatement (At 1) demo_state
               = Ok (At 1) (logged demo_state evs)) /\
  (exists evs, vcall 6 OptOutMutator (LConcrete (KExpr UnaryOp)) (At 1) demo_state
               = Ok (At 1) (logged demo_state evs)).
Proof.
  assert (Hwf : nodes_wf (nodes (fusion demo_state)))
    by (apply nodes_wfb_sound; reflexivity).
  assert (Hfuel : 3 * 1 + 3 <= 6) by (simpl; lia).
  split; [exact Hwf|]. split; [reflexivity|]. split; [exact Hfuel|].
  exact (OptOutMutator_default_identity nat (KExpr UnaryOp) 1
           (mkNode (SExpr (EKnown UnaryOp)) [At 0]) demo_state 6
           Hwf eq_refl eq_refl Hfuel).
Defined.

Lemma OptOutMutator_fusion_roundtrip_witness :
  fusion_wf (fusion demo_state) /\
  3 * length (nodes (fusion demo_state)) <= 9 /\
  exists st' : State nat,
    OptOutMutator_mutate_Fusion (vcall 9 OptOutMutator) demo_state = Ok tt st' /\
    fusion_struct_eq (fusion demo_state) (fusion st') /\
    fusion st' = fusion demo_state /\
    user st' = user demo_state.
Proof.
  assert (Hwf : fusion_wf (fusion demo_state))
    by (apply fusion_wfb_sound; reflexivity).
  assert (Hfuel : 3 * length (nodes (fusion demo_state)) <= 9) by (simpl; lia).
  split; [exact Hwf|]. split; [exact Hfuel|].
  exact (OptOutMutator_fusion_roundtrip nat demo_state 9 Hwf Hfuel).
Defined.

(** ** Derived classes that override one concrete overload *)

Lemma override_concrete_method {U R} (k : Kind) (c : Class U R)
    (body : Self U R -> Ptr -> M U R) (k' : Kind) :
  method (override_concrete k c body) (LConcrete k')
  = if decide (k' = k) then body else method c (LConcrete k').
Proof. destruct k' as [[]|[]]; reflexivity. Qed.

Lemma OptOutDispatch_concrete_body {U} (k : Kind) (this : Self U unit) (p : Ptr) :
  method OptOutDispatch (LConcrete k) this p = ret tt.
Proof. by destruct k as [[]|[]]. Qed.

Lemma OptInDispatch_concrete_body {U} (k : Kind) (this : Self U unit) (p : Ptr) :
  method OptInDispatch (LConcrete k) this p = throw (HandlerNotOverridden k).
Proof. by destruct k as [[]|[]]. Qed.

Lemma OptInConstDispatch_concrete_body {U} (k : Kind) (this : Self U unit) (p : Ptr) :
  method OptInConstDispatch (LConcrete k) this p = throw (HandlerNotOverridden k).
Proof. by destruct k as [[]|[]]. Qed.

Lemma OptInMutator_concrete_body {U} (k : Kind) (this : Self U Ptr) (p : Ptr) :
  method OptInMutator (LConcrete k) this p = throw (MutatorNotOverridden k).
Proof. by destruct k as [[]|[]]. Qed.

(** X1.  In a class derived from OptOutDispatch that overrides the [handle]
    of one concrete node type, a virtual call of the overload of that type
    runs the override, with [this] the derived object; a virtual call of the
    overload of any other type still does nothing. *)
Theorem OptOutDispatch_override_one :
  forall (U : Type) (k : Kind) (body : Self U unit -> Ptr -> M U unit)
         (k' : Kind) (fuel : nat) (p : Ptr) (st : State U),
    let c' := override_concrete k OptOutDispatch body in
    vcall (S fuel) c' (LConcrete k') p st
    = if decide (k' = k)
      then body (vcall fuel c') p (log (Call (LConcrete k') p) st)
      else Ok tt (log (Call (LConcrete k') p) st).
Proof.
  intros U k body k' fuel p st c'. unfold c'.
  rewrite vcall_S, override_concrete_method.
  destruct (decide (k' = k)); [reflexivity|].
  by rewrite OptOutDispatch_concrete_body.
Qed.

(** X2.  In a class derived from OptInDispatch, OptInConstDispatch or
    OptInMutator that overrides the overload of one concrete node type, a
    virtual call of the overload of that type runs the override; the overload
    of every other type still throws, and the message names that other type,
    not the overridden one. *)
Theorem OptIn_override_one :
  forall (U : Type) (k : Kind)
         (body : Self U unit -> Ptr -> M U unit)
         (mbody : Self U Ptr -> Ptr -> M U Ptr)
         (k' : Kind) (fuel : nat) (p : Ptr) (st : State U),
    let c1 := override_concrete k OptInDispatch body in
    let c2 := override_concrete k OptInConstDispatch body in
    let c3 := override_concrete k OptInMutator mbody in
    let st' := log (Call (LConcrete k') p) st in
    vcall (S fuel) c1 (LConcrete k') p st
    = (if decide (k' = k) then body (vcall fuel c1) p st'
       else Err (AssertFailed ("Handle not overriden for " +:+ kind_name k' +:+ ".")) st') /\
    vcall (S fuel) c2 (LConcrete k') p st
    = (if decide (k' = k) then body (vcall fuel c2) p st'
       else Err (AssertFailed ("Handle not overriden for " +:+ kind_name k' +:+ ".")) st') /\
    vcall (S fuel) c3 (LConcrete k') p st
    = (if decide (k' = k) then mbody (vcall fuel c3) p st'
       else Err (AssertFailed ("Mutate not overriden for " +:+ kind_name k' +:+ ".")) st').
Proof.
  intros U k body mbody k' fuel p st c1 c2 c3 st'. unfold c1, c2, c3, st'.
  rewrite !vcall_S, !override_concrete_method.
  destruct (decide (k' = k)); [by repeat split|].
  rewrite OptInDispatch_concrete_body, OptInConstDispatch_concrete_body,
    OptInMutator_concrete_body.
  by repeat split.
Qed.

(** X3.  The default overloads of the opt-in classes have pairwise distinct
    diagnostics: two defaults of OptInDispatch (or of OptInConstDispatch, or
    of OptInMutator) throw the same error exactly when they are the overloads
    of the same node type, the two visitors throw the same error for the same
    type, and a visitor default never throws the error of a mutator
    default. *)
Theorem default_diagnostics_distinct :
  forall (U : Type) (k k' : Kind) (this this' : Self U unit) (mthis mthis' : Self U Ptr)
         (p p' : Ptr) (st st' : State U),
    bool_decide (raised (method OptInDispatch (LConcrete k) this p st)
                 = raised (method OptInDispatch (LConcrete k') this' p' st'))
    = bool_decide (k = k') /\
    bool_decide (raised (method OptInConstDispatch (LConcrete k) this p st)
                 = raised (method OptInDispatch (LConcrete k') this' p' st'))
    = bool_decide (k = k') /\
    bool_decide (raised (method OptInMutator (LConcrete k) mthis p st)
                 = raised (method OptInMutator (LConcrete k') mthis' p' st'))
    = bool_decide (k = k') /\
    bool_decide (raised (method OptInDispatch (LConcrete k) this p st)
                 = raised (method OptInMutator (LConcrete k') mthis' p' st'))
    = false.
Proof.
  intros U k k' this this' mthis mthis' p p' st st'.
  repeat split; destruct k as [[]|[]], k' as [[]|[]]; reflexivity.
Qed.


(** ** Overriding one concrete overload, seen from the Statement level *)

(** The router bodies are those of the section on the hierarchical router;
    the header comment describes what they do for a derived class. *)
Lemma routed_to_override {U R} (c : Class U R) (k : Kind)
    (body : Self U R -> Ptr -> M U R) (fuel : nat) (p : Ptr) (n : Node)
    (k' : Kind) (st : State U) :
  strategy c ->
  deref (fusion st) p = Some n ->
  disc n = disc_of k' ->
  let c' := override_concrete k c body in
  vcall (S (S (S fuel))) c' LStatement p st
  = (if decide (k' = k) then body else method c (LConcrete k'))
      (vcall fuel c') p
      (logged st [Call LStatement p; Call (level_of (family_of k')) p;
                  Call (LConcrete k') p]).
Proof.
  intros Hs Hn Hk c'.
  destruct (strategy_routes c Hs) as (HS & HE & HV).
  unfold c'.
  rewrite (route_to_concrete (override_concrete k c body) (S fuel) p n k' st
             HS HE HV Hn Hk).
  by rewrite vcall_S, log_logged, override_concrete_method.
Qed.

(** X5.  As the header comment says of OptOutDispatch: with a derived class
    that overrides [handle] for one concrete node type only, calling the
    Statement-level [handle] on a node of that type runs the override (after
    the Statement-level and the family-level call), and on a node of any
    other known type it does nothing. *)
Theorem OptOutDispatch_override_routed :
  forall (U : Type) (k : Kind) (body : Self U unit -> Ptr -> M U unit)
         (fuel : nat) (p : Ptr) (n : Node) (k' : Kind) (st : State U),
    deref (fusion st) p = Some n ->
    disc n = disc_of k' ->
    let c' := override_concrete k OptOutDispatch body in
    let st' := logged st [Call LStatement p; Call (level_of (family_of k')) p;
                          Call (LConcrete k') p] in
    vcall (S (S (S fuel))) c' LStatement p st
    = if decide (k' = k) then body (vcall fuel c') p st' else Ok tt st'.
Proof.
  intros U k body fuel p n k' st Hn Hk c' st'. unfold c', st'.
  rewrite (routed_to_override OptOutDispatch k body fuel p n k' st
             strategy_OptOutDispatch Hn Hk).
  destruct (decide (k' = k)); [reflexivity|].
  by rewrite OptOutDispatch_concrete_body.
Qed.

(** X6.  As the header comment says of OptInDispatch: with a derived class
    that overrides the overload of one concrete node type only, calling the
    Statement-level entry point on a node of that type runs the override,
    and on a node of any other known type an error is thrown that names the
    type of the node met.  The same holds for OptInConstDispatch and for
    OptInMutator. *)
Theorem OptIn_override_routed :
  forall (U : Type) (k : Kind)
         (body : Self U unit -> Ptr -> M U unit)
         (mbody : Self U Ptr -> Ptr -> M U Ptr)
         (fuel : nat) (p : Ptr) (n : Node) (k' : Kind) (st : State U),
    deref (fusion st) p = Some n ->
    disc n = disc_of k' ->
    let c1 := override_concrete k OptInDispatch body in
    let c2 := override_concrete k OptInConstDispatch body in
    let c3 := override_concrete k OptInMutator mbody in
    let st' := logged st [Call LStatement p; Call (level_of (family_of k')) p;
                          Call (LConcrete k') p] in
    vcall (S (S (S fuel))) c1 LStatement p st
    = (if decide (k' = k) then body (vcall fuel c1) p st'
       else Err (AssertFailed ("Handle not overriden for " +:+ kind_name k' +:+ ".")) st') /\
    vcall (S (S (S fuel))) c2 LStatement p st
    = (if decide (k' = k) then body (vcall fuel c2) p st'
       else Err (AssertFailed ("Handle not overriden for " +:+ kind_name k' +:+ ".")) st') /\
    vcall (S (S (S fuel))) c3 LStatement p st
    = (if decide (k' = k) then mbody (vcall fuel c3) p st'
       else Err (AssertFailed ("Mutate not overriden for " +:+ kind_name k' +:+ ".")) st').
Proof.
  intros U k body mbody fuel p n k' st Hn Hk c1 c2 c3 st'.
  unfold c1, c2, c3, st'.
  rewrite (routed_to_override OptInDispatch k body fuel p n k' st
             strategy_OptInDispatch Hn Hk).
  rewrite (routed_to_override OptInConstDispatch k body fuel p n k' st
             strategy_OptInConstDispatch Hn Hk).
  rewrite (routed_to_override OptInMutator k mbody fuel p n k' st
             strategy_OptInMutator Hn Hk).
  destruct (decide (k' = k)); [by repeat split|].
  rewrite OptInDispatch_concrete_body, OptInConstDispatch_concrete_body,
    OptInMutator_concrete_body.
  by repeat split.
Qed.

Lemma OptOutDispatch_override_routed_witness :
  deref (fusion demo_state) (At 1) = Some (mkNode (SExpr (EKnown UnaryOp)) [At 0]) /\
  vcall 3 (override_concrete (KExpr UnaryOp) OptOutDispatch (fun _ _ => update_user S))
        LStatement (At 1) demo_state
  = Ok tt (mkState demo_fusion 1
             [Call LStatement (At 1); Call LExpr (At 1);
              Call (LConcrete (KExpr UnaryOp)) (At 1)]) /\
  vcall 3 (override_concrete (KExpr UnaryOp) OptOutDispatch (fun _ _ => update_user S))
        LStatement (At 0) demo_state
  = Ok tt (mkState demo_fusion 0
             [Call LStatement (At 0); Call LVal (At 0);
              Call (LConcrete (KVal Float)) (At 0)]).
Proof.
  split; [reflexivity|]. split.
  - exact (OptOutDispatch_override_routed nat (KExpr UnaryOp)
             (fun _ _ => update_user S) 0 (At 1)
             (mkNode (SExpr (EKnown UnaryOp)) [At 0]) (KExpr UnaryOp) demo_state
             eq_refl eq_refl).
  - exact (OptOutDispatch_override_routed nat (KExpr UnaryOp)
             (fun _ _ => update_user S) 0 (At 0)
             (mkNode (SVal (VKnown Float)) []) (KVal Float) demo_state
             eq_refl eq_refl).
Defined.

Lemma OptIn_override_routed_witness :
  deref (fusion demo_state) (At 0) = Some (mkNode (SVal (VKnown Float)) []) /\
  vcall 3 (override_concrete (KExpr UnaryOp) OptInDispatch (fun _ _ => update_user S))
        LStatement (At 0) demo_state
  = Err (AssertFailed "Handle not overriden for Float.")
        (mkState demo_fusion 0
           [Call LStatement (At 0); Call LVal (At 0);
            Call (LConcrete (KVal Float)) (At 0)]) /\
  vcall 3 (override_concrete (KExpr UnaryOp) OptInMutator (fun _ q => ret q))
        LStatement (At 0) demo_state
  = Err (AssertFailed "Mutate not overriden for Float.")
        (mkState demo_fusion 0
           [Call LStatement (At 0); Call LVal (At 0);
            Call (LConcrete (KVal Float)) (At 0)]).
Proof.
  destruct (OptIn_override_routed nat (KExpr UnaryOp)
              (fun _ _ => update_user S) (fun _ q => ret q) 0 (At 0)
              (mkNode (SVal (VKnown Float)) []) (KVal Float) demo_state
              eq_refl eq_refl) as (H1 & _ & H3).
  split; [reflexivity|]. split; [exact H1|exact H3].
Defined.
